(* ===== verification/_CoqProject ===== *)
-Q . S2P
Prelude.v
Cipher.v
KeyInput.v
FileData.v
FileSystem.v
BufWriter.v
Session.v
GuardSpec.v
