(* ===== verification/Prelude.v ===== *)
(** * FileEncrypterDecrypter: a verification development of src/src/main.rs

    ** The program

    [src/src/main.rs] is a single-process console tool.  Its [main]
    resolves the machine's address once ([local_ip], line 67), builds an
    empty [FileData] (line 68) and loops forever (lines 70-149).  Each
    iteration of the loop ("a cycle") reads an input file name, refuses it
    when the address is banned for that name, reads a key with
    [str::parse::<u8>], rejects key 0, compares the key with the one
    registered for the input name (recording a failed attempt on a
    mismatch), reads the file, XORs every byte with the key
    ([process_file_data]), creates the output file, registers the output
    name with the key when the input name was not registered, and writes
    the result.  The three maps of [FileData] (lines 25-64) are the only
    state that survives a cycle; they form the access guard.

    ** Layout of the development (files in dependency order)

    - [Prelude] (this file): the Rust [Result] type, u8 values kept as [Z]
      with the wrap-around of the [u8] addition written out ([u8_wrap]),
      XOR written [^^], the hint databases [fed] and [fed_rw], and the
      tactic [case_guards] shared by every component.
    - [Cipher] (Module [Cipher]): [process_file_data] (lines 16-23) as the
      push loop [push_xor_loop] over an accumulator.
    - [KeyInput] (Module [KeyInput]): [get_input] (lines 6-14) over
      standard input as a list of lines, with [str::trim] on ASCII
      whitespace; the standard library's [u8::from_str_radix(_, 10)]
      ([u8_from_str], [parse_digits], [to_digit], [IntErrorKind]), which
      is not repository code and is modelled after the library; and
      [read_key], the [match] of lines 89-103.
    - [FileData] (Module [FileData]): [struct FileData] (lines 25-29) as a
      record of three stdpp [gmap]s with the source's key types ([string],
      [string], [Vec<String>] as [list string]); [new], [add_encrypted_file],
      [add_banned_ip], [change_ip_attempts] (lines 32-62); the two tests
      [main] makes on it, [access_denied] (lines 82-84) and [key_mismatch]
      (lines 110-111).
    - [FileSystem] (Module [FileSystem]): the type class [FileSystem] of
      the four file operations [main] calls, each returning a [result]
      with an [io_error]; the law class [FileSystemLaws]; an in-memory
      instance ([MemFS]) and one with a bounded disk ([DiskFS]) whose
      writes can fail.
    - [BufWriter] (Module [BufWriter], Section over any [FileSystem]): the
      standard library's [BufWriter] with its 8 KiB buffer
      ([DEFAULT_BUF_SIZE]), [write_all] with its fast and cold paths,
      [flush_buf] and the [Drop] that ignores the flush's error, and
      [write_output], what lines 141-146 do with it.
    - [Session] (Module [Session], Section [Loop] over any [FileSystem]):
      a [World] is the [FileData], the file system and the unread lines of
      standard input; [cycle] is one iteration of the loop (lines 71-148),
      returning the message it printed as a [report]; [step] is the loop:
      a cycle, or the environment changing the files and the operator's
      future input; [reachable] starts from [init] (line 68).
      [cycle_effect] shows that a cycle changes the guard in one of three
      ways ([guard_effect]); all invariants are proved from it.
      [run_cycles] iterates the loop on a script and collects what it
      prints.
    - [GuardSpec] (Module [GuardSpec]): the abstract guard of the
      specification, a registry plus a machine [Fresh 0 -> Fresh 1 ->
      Fresh 2 -> Banned] per pair (name, address), its step relation
      [a_step], and the abstraction [abs] of a [FileData].

    ** What the theorems show

    - The guard (Session, FileData): every reachable world satisfies
      [guard_inv]: counters are in [0, 3] and exist only for registered
      names, an address is in a ban list exactly when its counter is 3,
      ban lists have no duplicates and registered keys are in [1, 255]
      ([reachable_guard_inv]), so the [u8] increment of line 54 never
      wraps; three failures ban and fewer do not
      ([fail_n_access_denied]); a banned address is refused before its
      key is read ([cycle_banned_refused]) and for ever after
      ([access_denied_persists]).
    - The loop (Session): every error other than a wrong key or a failed
      write leaves the guard unchanged ([cycle_error_keeps_guard]); the
      success path is characterised in both directions ([cycle_processed],
      [cycle_processes]); encrypting a file and decrypting the result in
      the next cycle restores it ([encrypt_decrypt_roundtrip]); at the end
      of input the loop spins on the same error ([cycle_eof_spins]);
      Scenario B of the specification,
      three wrong keys then a refusal, holds as a run
      ([three_wrong_keys_then_denied]).
    - The buffered write (BufWriter, Session): an output shorter than
      8 KiB is always reported written ([write_output_short_never_fails]),
      so a write error is printed only for inputs of 8 KiB or more
      ([cycle_write_error_long]) and a refused short write passes for a
      success ([cycle_short_write_failure_hidden]).
    - The refinement (GuardSpec): every run of the loop is a run of the
      abstract guard ([loop_refines_abstract_guard]).
    - Cipher: the loop is the map of XOR ([process_file_data_spec]), is
      an involution for every key, keeps the length, and a non-zero key
      changes every byte.
    - KeyInput: a string of digits parses to its value or [PosOverflow]
      ([u8_from_str_digits]), and [read_key] never produces the
      catch-all message of line 98 ([read_key_outcome]).

    ** Findings

    - [HashMap::insert] in [add_encrypted_file] replaces the key of an
      output name that already had one ([cycle_registration_overwrites]);
      the specification says the first registration wins.
    - The output name is registered (line 138) before [write_all] (line
      143), so a failed write leaves it registered with the key just
      read ([cycle_write_error_registers]); the specification says no error
      changes the registry.
    - A failed write of an output shorter than 8 KiB is never reported:
      [BufWriter] only buffers it and its [Drop] ignores the error of the
      real write; the loop prints success and registers an empty output
      ([cycle_short_write_failure_hidden]).
    - The parser accepts a leading [+]; the catch-all key message is dead;
      at the end of standard input the loop repeats the same error.

    ** Plan for the next sittings

    Partial writes of [File::write] under [flush_buf] (a loop that needs a
    termination argument), a file system whose files change between
    [File::open] and [read_to_end], [str::trim] on multi-byte UTF-8
    whitespace, and an abstract specification of the whole loop (an
    encrypt/decrypt service per name) refined by [cycle].

    ** Bounds and what is not modelled

    Keys and counters are [u8] values kept as [Z]; the only arithmetic on
    them, [*value += 1], is written with [u8_wrap] and never wraps on
    reachable states, where counters stay in [0, 3]
    ([reachable_guard_inv]), so a debug build (which would panic) and a
    release build (which would wrap) behave alike.  No fuel is used: the
    loop never ends by itself, so it is a step relation and its runs are
    [rtc] of it, or [run_cycles] for a fixed number of iterations; every
    function of the model is structural.  The buffer capacity is the
    library's 8 KiB, kept folded ([Arguments ... : simpl never]) so that
    proofs compare lengths with it symbolically; the concrete 8 KiB world
    of the write-error examples is run through the write-path lemmas
    ([full_disk_cycle]) rather than evaluated, which keeps the kernel
    check fast.  Console printing, the prompt flush and [local_ip] are not modelled: the
    printed message is the [report] of a cycle, the address is the
    parameter [user_ip] of the loop, and the failure of [local_ip], a
    panic before the loop, is outside the model.  [BufReader] adds nothing
    to [read_to_end] and is not modelled apart; a [BufWriter] flush writes
    its whole buffer with the file's [write_all], so the partial writes of
    [File::write] are not modelled yet. *)

From stdpp Require Export base gmap strings list fin_maps.
From Stdlib Require Export ZArith.

Declare Scope fed_scope.
Delimit Scope fed_scope with fed.
Open Scope Z_scope.

(** ** Rust's [Result] *)

Inductive result (A E : Type) : Type :=
| Ok (a : A)
| Err (e : E).
Arguments Ok {A E} a.
Arguments Err {A E} e.

(** ** [u8] values kept as [Z] *)

Definition u8_wrap (z : Z) : Z := z mod 256.

Definition is_u8 (z : Z) : Prop := 0 <= z <= 255.

#[export] Instance is_u8_dec z : Decision (is_u8 z).
Proof. unfold is_u8. apply _. Qed.

(** XOR of two bytes, the [^] of line 19. *)
Notation "a ^^ b" := (Z.lxor a b) (at level 40, left associativity) : fed_scope.
Open Scope fed_scope.

Lemma u8_wrap_range z : is_u8 (u8_wrap z).
Proof. unfold is_u8, u8_wrap. pose proof (Z.mod_pos_bound z 256). lia. Qed.

Lemma u8_wrap_small z : is_u8 z -> u8_wrap z = z.
Proof. unfold is_u8, u8_wrap. intros. apply Z.mod_small. lia. Qed.

Lemma u8_wrap_succ_small z : 0 <= z < 255 -> u8_wrap (z + 1) = z + 1.
Proof. intros. apply u8_wrap_small. unfold is_u8. lia. Qed.

(** The wrap-around itself: 255 + 1 is 0 in [u8]. *)
Example u8_wrap_overflow : u8_wrap (255 + 1) = 0.
Proof. reflexivity. Qed.

Lemma lxor_cancel_r a k : a ^^ k ^^ k = a.
Proof. by rewrite Z.lxor_assoc, Z.lxor_nilpotent, Z.lxor_0_r. Qed.

Lemma lxor_fixed_iff a k : a ^^ k = a <-> k = 0.
Proof.
  split; [| intros ->; apply Z.lxor_0_r].
  intros H. rewrite <- (Z.lxor_0_r a) in H at 2.
  rewrite <- (Z.lxor_nilpotent a) in H.
  apply (f_equal (Z.lxor a)) in H.
  by rewrite <- !Z.lxor_assoc, !Z.lxor_nilpotent, !Z.lxor_0_l in H.
Qed.

(** ** Automation shared by the components *)

Create HintDb fed discriminated.
Create Rewrite HintDb fed_rw.
#[export] Hint Resolve u8_wrap_range : fed.
#[export] Hint Rewrite lxor_cancel_r Z.lxor_0_r : fed_rw.
#[export] Hint Rewrite @lookup_insert_eq @lookup_empty : fed_rw.

(** Split the [if]s and [match]es of a model on its guards, then clean
    up the equations the split produced. *)
Ltac case_guards :=
  repeat (case_bool_decide || case_decide || case_match);
  simplify_eq/=.
