(* ===== verification/Cipher.v ===== *)
(** * Cipher: [process_file_data] (src/src/main.rs, lines 16-23)

    The transformation that [main] applies to the bytes of the input
    file.  The Rust function allocates a vector and pushes [byte ^ key]
    for every byte of the input; [process_file_data] is that loop with
    the vector as an accumulator.  The theorems state that the loop is a
    map, that it is its own inverse for every key, that it keeps the
    length, and what keys 0 and non-zero do. *)

From S2P Require Import Prelude.

Module Cipher.

(** The body of [for byte in data { processed_data.push(byte ^ key); }]:
    one push per input byte, at the end of the vector. *)
Fixpoint push_xor_loop (data : list Z) (key : Z) (processed_data : list Z)
    : list Z :=
  match data with
  | [] => processed_data
  | byte :: rest => push_xor_loop rest key (processed_data ++ [byte ^^ key])
  end.

(** [Vec::with_capacity(data.len())] is an empty vector. *)
Definition process_file_data (data : list Z) (key : Z) : list Z :=
  push_xor_loop data key [].

(** The reference definition the loop is compared with. *)
Definition xor_all (data : list Z) (key : Z) : list Z :=
  (fun byte => byte ^^ key) <$> data.

Lemma push_xor_loop_acc data key acc :
  push_xor_loop data key acc = acc ++ xor_all data key.
Proof.
  revert acc. induction data as [| b data IH]; intros acc; simpl.
  - by rewrite app_nil_r.
  - by rewrite IH, <- app_assoc.
Qed.

Lemma xor_all_involutive data key : xor_all (xor_all data key) key = data.
Proof.
  unfold xor_all. rewrite <- list_fmap_compose.
  induction data as [| b data IH]; [done |].
  by rewrite fmap_cons, IH; simpl; autorewrite with fed_rw.
Qed.

Lemma length_xor_all data key : length (xor_all data key) = length data.
Proof. unfold xor_all. by rewrite length_fmap. Qed.

#[export] Hint Rewrite length_xor_all : fed_rw.

(** Replace [process_file_data] by the map it computes. *)
Ltac unfold_cipher := unfold process_file_data; rewrite ?push_xor_loop_acc, ?app_nil_l.

(** C11: the push loop computes the map of XOR over the input. *)
Theorem process_file_data_spec data key :
  process_file_data data key = xor_all data key.
Proof. by unfold_cipher. Qed.

(** C10: applying [process_file_data] twice with the same key gives back
    the input, for every key: encryption and decryption are the same
    operation, as the program assumes when it uses one routine for both. *)
Theorem process_file_data_involutive data key :
  process_file_data (process_file_data data key) key = data.
Proof. unfold_cipher. apply xor_all_involutive. Qed.

(** C13: the output has the length of the input. *)
Theorem process_file_data_length data key :
  length (process_file_data data key) = length data.
Proof. unfold_cipher. apply length_xor_all. Qed.

(** Key 0 leaves the data as it is: this is why [main] calls it a
    useless key (line 105). *)
Lemma process_file_data_zero data : process_file_data data 0 = data.
Proof.
  unfold_cipher. unfold xor_all.
  induction data as [| b data IH]; [done |].
  by rewrite fmap_cons, IH, Z.lxor_0_r.
Qed.

(** C12: a non-zero key changes every byte of the file. *)
Theorem process_file_data_changes_every_byte data key :
  key <> 0 ->
  Forall2 (fun out inp => out <> inp) (process_file_data data key) data.
Proof.
  intros Hkey. unfold_cipher. unfold xor_all.
  induction data as [| b data IH]; constructor; [| exact IH].
  by rewrite lxor_fixed_iff.
Qed.

Lemma process_file_data_changes_witness :
  (3 <> 0)%Z /\
  Forall2 (fun out inp => out <> inp) (process_file_data [1; 2; 255] 3) [1; 2; 255].
Proof.
  split; [lia |]. apply (process_file_data_changes_every_byte [1; 2; 255] 3). lia.
Defined.

Example process_file_data_run : process_file_data [65; 66; 0] 1 = [64; 67; 1].
Proof. reflexivity. Qed.

End Cipher.
