(* ===== verification/KeyInput.v ===== *)
(** * KeyInput: console lines and the key (src/src/main.rs, lines 6-14, 89-108)

    [get_input] prints a prompt, reads one line of standard input and
    returns it trimmed.  Standard input is the list of lines the operator
    has typed; at its end [read_line] leaves the buffer empty, so
    [get_input] returns the empty string.  [str::trim] removes the
    characters with Unicode [White_Space] at both ends; on the ASCII
    strings of this model those are 9 to 13 and 32.

    The key is read with [str::parse::<u8>], the standard library's
    [u8::from_str_radix(src, 10)]: an empty string is [Empty]; a lone
    ["+"] or ["-"] is [InvalidDigit]; a leading ["+"] is skipped ([u8]
    being unsigned, ["-"] is an ordinary, invalid, character); then each
    character, left to right, is checked to be a digit ([InvalidDigit]
    otherwise) and the accumulated value multiplied by 10 and added to
    with overflow checks ([PosOverflow]).  [read_key] is the [match] of
    lines 89-103 that turns the error kinds into the four messages. *)

From S2P Require Import Prelude.
From Stdlib Require Import Ascii String.

Module KeyInput.

(** ** [get_input] *)

Definition is_whitespace (c : ascii) : bool :=
  let n := nat_of_ascii c in ((9 <=? n) && (n <=? 13))%nat || (n =? 32)%nat.

Fixpoint trim_start (s : list ascii) : list ascii :=
  match s with
  | [] => []
  | c :: rest => if is_whitespace c then trim_start rest else s
  end.

(** [str::trim]: both ends. *)
Definition trim (s : string) : string :=
  string_of_list_ascii
    (rev (trim_start (rev (trim_start (list_ascii_of_string s))))).

Definition get_input (stdin : list string) : string * list string :=
  match stdin with
  | [] => (""%string, [])
  | line :: rest => (trim line, rest)
  end.


(** ** [u8::from_str] *)

Inductive IntErrorKind := Empty | InvalidDigit | PosOverflow | NegOverflow | Zero.

#[export] Instance IntErrorKind_eq_dec : EqDecision IntErrorKind.
Proof. solve_decision. Defined.

(** [char::to_digit(10)] *)
Definition to_digit (c : ascii) : option Z :=
  let n := Z.of_nat (nat_of_ascii c) in
  if decide (48 <= n <= 57) then Some (n - 48) else None.

(** The loop over the digits: [checked_mul] by 10, the digit test,
    then [checked_add]; [u8::MAX] is 255. *)
Fixpoint parse_digits (digits : list ascii) (result : Z)
    : Prelude.result Z IntErrorKind :=
  match digits with
  | [] => Ok result
  | c :: rest =>
      let mul := result * 10 in
      match to_digit c with
      | None => Err InvalidDigit
      | Some x =>
          if decide (mul <= 255) then
            if decide (mul + x <= 255) then parse_digits rest (mul + x)
            else Err PosOverflow
          else Err PosOverflow
      end
  end.

Definition u8_from_str (src : string) : Prelude.result Z IntErrorKind :=
  match list_ascii_of_string src with
  | [] => Err Empty
  | [c] =>
      if decide (c = "+"%char \/ c = "-"%char) then Err InvalidDigit
      else parse_digits [c] 0
  | c :: rest =>
      if decide (c = "+"%char) then parse_digits rest 0
      else parse_digits (c :: rest) 0
  end.

(** ** The key, lines 89-103 *)

(** The four messages of lines 95-98. *)
Inductive key_error :=
| KeyMustNotBeEmpty      (* IntErrorKind::Empty *)
| EnterValidNumber       (* IntErrorKind::InvalidDigit *)
| NumberOutOfRange       (* IntErrorKind::PosOverflow *)
| ErrorReadingKey.       (* any other kind *)

Definition read_key (line : string) : Prelude.result Z key_error :=
  match u8_from_str line with
  | Ok key => Ok key
  | Err kind =>
      Err (match kind with
           | Empty => KeyMustNotBeEmpty
           | InvalidDigit => EnterValidNumber
           | PosOverflow => NumberOutOfRange
           | _ => ErrorReadingKey
           end)
  end.

(** ** Decimal digits, to state what the parser computes *)

(** The character of a decimal digit [0 <= d <= 9]. *)
Definition digit_char (d : Z) : ascii := ascii_of_nat (Z.to_nat (48 + d)).

(** The value of a list of decimal digits read left to right. *)
Definition decimal_value (acc : Z) (ds : list Z) : Z :=
  fold_left (fun a d => a * 10 + d) ds acc.

Definition is_digit (d : Z) : Prop := 0 <= d <= 9.

(** ** Properties of the parser *)

Lemma to_digit_char d : is_digit d -> to_digit (digit_char d) = Some d.
Proof.
  unfold is_digit. intros Hd.
  assert (d = 0 \/ d = 1 \/ d = 2 \/ d = 3 \/ d = 4 \/ d = 5 \/ d = 6 \/
          d = 7 \/ d = 8 \/ d = 9) as Hcases by lia.
  by repeat destruct Hcases as [-> | Hcases]; [..| subst].
Qed.

Lemma digit_char_not_plus d : is_digit d -> digit_char d <> "+"%char.
Proof.
  intros Hd Heq. pose proof (to_digit_char d Hd) as Ht.
  rewrite Heq in Ht. discriminate.
Qed.

Lemma decimal_value_ge acc ds :
  0 <= acc -> Forall is_digit ds -> acc <= decimal_value acc ds.
Proof.
  unfold decimal_value, is_digit. revert acc.
  induction ds as [| d ds IH]; intros acc Hacc Hds; simpl; [lia |].
  inversion Hds as [| ? ? Hd Hds']; subst.
  specialize (IH (acc * 10 + d) ltac:(lia) Hds'). lia.
Qed.

(** The digit loop computes the decimal value of the digits when it fits
    in a [u8] and reports [PosOverflow] otherwise. *)
Lemma parse_digits_value ds acc :
  0 <= acc <= 255 -> Forall is_digit ds ->
  parse_digits (digit_char <$> ds) acc =
  if decide (decimal_value acc ds <= 255) then Ok (decimal_value acc ds)
  else Err PosOverflow.
Proof.
  revert acc. induction ds as [| d ds IH]; intros acc Hacc Hds; simpl.
  - by rewrite decide_True by (unfold decimal_value; simpl; lia).
  - inversion Hds as [| ? ? Hd Hds']; subst.
    rewrite to_digit_char by done. unfold is_digit in Hd.
    pose proof (decimal_value_ge (acc * 10 + d) ds ltac:(lia) Hds').
    unfold decimal_value in *; simpl.
    destruct (decide (acc * 10 <= 255)); [destruct (decide (acc * 10 + d <= 255)) |].
    + rewrite IH by (done || lia). done.
    + rewrite decide_False by lia. done.
    + rewrite decide_False by lia. done.
Qed.

(** On a string of digits the sign handling does nothing: the parser is
    the digit loop from 0. *)
Lemma u8_from_str_digit_string ds :
  ds <> [] -> Forall is_digit ds ->
  u8_from_str (string_of_list_ascii (digit_char <$> ds)) = parse_digits (digit_char <$> ds) 0.
Proof.
  intros Hne Hds. unfold u8_from_str.
  rewrite list_ascii_of_string_of_list_ascii.
  destruct ds as [| d [| d' ds]]; [done | |];
    inversion Hds as [| ? ? Hd Hds']; subst; cbn -[parse_digits].
  - rewrite decide_False; [done |].
    pose proof (to_digit_char d Hd) as Ht.
    intros [Heq | Heq]; rewrite Heq in Ht; discriminate.
  - by rewrite decide_False by (by apply digit_char_not_plus).
Qed.

(** C14: the parser applied to a non-empty string of decimal digits
    (leading zeros allowed) returns the value of the digits when it is at
    most 255 and [PosOverflow] when it is larger. *)
Theorem u8_from_str_digits ds :
  ds <> [] -> Forall is_digit ds ->
  u8_from_str (string_of_list_ascii (digit_char <$> ds)) =
  if decide (decimal_value 0 ds <= 255) then Ok (decimal_value 0 ds)
  else Err PosOverflow.
Proof.
  intros Hne Hds. rewrite u8_from_str_digit_string by done.
  by apply parse_digits_value; [lia |].
Qed.

Lemma u8_from_str_digits_witness :
  u8_from_str (string_of_list_ascii (digit_char <$> [0; 4; 2])) = Ok 42.
Proof.
  rewrite (u8_from_str_digits [0; 4; 2]);
    [reflexivity | discriminate | repeat constructor; unfold is_digit; lia].
Defined.

Lemma parse_digits_outcome cs acc :
  0 <= acc <= 255 ->
  match parse_digits cs acc with
  | Ok v => is_u8 v
  | Err k => k = InvalidDigit \/ k = PosOverflow
  end.
Proof.
  unfold is_u8. revert acc. induction cs as [| c cs IH]; intros acc Hacc; simpl; [lia |].
  destruct (to_digit c) as [x |] eqn:Hx; [| by left].
  unfold to_digit in Hx. case_decide; simplify_eq.
  repeat case_decide; [apply IH; lia | by right | by right].
Qed.

(** The parser returns a value in [0, 255] or one of the error kinds
    [Empty], [InvalidDigit], [PosOverflow]. *)
Lemma u8_from_str_outcome s :
  match u8_from_str s with
  | Ok v => is_u8 v
  | Err k => k = Empty \/ k = InvalidDigit \/ k = PosOverflow
  end.
Proof.
  unfold u8_from_str.
  destruct (list_ascii_of_string s) as [| c [| c' cs]]; [by left | |].
  - case_decide; [by right; left |].
    pose proof (parse_digits_outcome [c] 0 ltac:(lia)).
    destruct (parse_digits [c] 0); naive_solver.
  - case_decide;
      [pose proof (parse_digits_outcome (c' :: cs) 0 ltac:(lia));
       destruct (parse_digits (c' :: cs) 0)
      |pose proof (parse_digits_outcome (c :: c' :: cs) 0 ltac:(lia));
       destruct (parse_digits (c :: c' :: cs) 0)]; naive_solver.
Qed.

(** C15: a key read by lines 89-103 is a value in [0, 255], and an error
    is never the catch-all "Error reading the key" of line 98, which is
    dead code. *)
Theorem read_key_outcome line :
  match read_key line with
  | Ok key => is_u8 key
  | Err e => e <> ErrorReadingKey
  end.
Proof.
  unfold read_key. pose proof (u8_from_str_outcome line) as Hout.
  destruct (u8_from_str line) as [v | k]; [done |].
  by destruct Hout as [-> | [-> | ->]].
Qed.

(** Scenario D of the specification, and the [+] sign the parser accepts. *)
Example read_key_scenarios :
  read_key "" = Err KeyMustNotBeEmpty /\ read_key "999" = Err NumberOutOfRange /\
  read_key "xx" = Err EnterValidNumber /\ read_key "+7" = Ok 7 /\
  read_key "-7" = Err EnterValidNumber /\ read_key (fst (get_input [" 42 "%string])) = Ok 42.
Proof. repeat split; vm_compute; reflexivity. Qed.

End KeyInput.
