(* ===== verification/FileData.v ===== *)
(** * FileData: the access guard (src/src/main.rs, lines 25-64, 82-84, 110-111)

    [struct FileData] holds three [HashMap]s: the key registered for a
    file name ([encrypted_file]), the addresses banned for a file name
    ([banned_ip], a [Vec<String>] per name, pushed to) and the number of
    failed attempts of a pair [vec![file_name, ip]] ([ip_attempts], a
    [u8]).  The maps are stdpp [gmap]s with the source's key types; the
    vectors are lists whose order is the order of the pushes.  The two
    guards that [main] evaluates on the record, the ban test of lines
    82-84 and the key test of lines 110-111, are [access_denied] and
    [key_mismatch].  The theorems give each method's behaviour on every
    branch and the counter machine of a pair. *)

From S2P Require Import Prelude.

Module FileData.

Record FileData := mkFileData {
  encrypted_file : gmap string Z;
  banned_ip : gmap string (list string);
  ip_attempts : gmap (list string) Z
}.

(** [FileData::new] *)
Definition new : FileData := mkFileData ∅ ∅ ∅.

(** [add_encrypted_file]: [HashMap::insert], which replaces the key of a
    name that already has one. *)
Definition add_encrypted_file (self : FileData) (file_name : string) (key : Z)
    : FileData :=
  mkFileData (<[file_name := key]> (encrypted_file self))
             (banned_ip self) (ip_attempts self).

(** [add_banned_ip]: [entry(file_name).or_insert_with(Vec::new).push(ip)]. *)
Definition add_banned_ip (self : FileData) (file_name ip : string) : FileData :=
  let v := default [] (banned_ip self !! file_name) in
  mkFileData (encrypted_file self)
             (<[file_name := v ++ [ip]]> (banned_ip self)) (ip_attempts self).

(** [change_ip_attempts]: [entry(key).and_modify(|v| *v += 1).or_insert(1)],
    then a ban when the counter now reads exactly 3.  [*value += 1] is a
    [u8] addition, written with its wrap-around. *)
Definition change_ip_attempts (self : FileData) (file_name ip : string)
    : FileData :=
  let key := [file_name; ip] in
  let attempts' :=
    match ip_attempts self !! key with
    | Some value => <[key := u8_wrap (value + 1)]> (ip_attempts self)
    | None => <[key := 1]> (ip_attempts self)
    end in
  let self' := mkFileData (encrypted_file self) (banned_ip self) attempts' in
  match attempts' !! key with
  | Some attempts =>
      if decide (attempts = 3) then add_banned_ip self' file_name ip else self'
  | None => self'
  end.

(** [HashMap::contains_key] and [Vec::contains]. *)
Definition contains_key {K V} `{Countable K} (m : gmap K V) (k : K) : bool :=
  bool_decide (is_Some (m !! k)).

Definition vec_contains (v : list string) (x : string) : bool :=
  bool_decide (x ∈ v).

(** Lines 82-84: the file has a key, it has a ban list, and the list holds
    the address.  The [unwrap] of line 84 runs only after
    [contains_key] succeeded, so its [None] branch is never taken. *)
Definition access_denied (self : FileData) (input_file_name user_ip : string)
    : bool :=
  contains_key (encrypted_file self) input_file_name &&
  contains_key (banned_ip self) input_file_name &&
  match banned_ip self !! input_file_name with
  | Some v => vec_contains v user_ip
  | None => false
  end.

(** Lines 110-111: the file has a key and it differs from [key]. *)
Definition key_mismatch (self : FileData) (input_file_name : string) (key : Z)
    : bool :=
  contains_key (encrypted_file self) input_file_name &&
  match encrypted_file self !! input_file_name with
  | Some k => negb (bool_decide (k = key))
  | None => false
  end.

(** ** Shorthands used by the statements *)

(** The counter of a pair, 0 when the pair has none. *)
Definition attempts_of (self : FileData) (file_name ip : string) : Z :=
  default 0 (ip_attempts self !! [file_name; ip]).

(** The ban list of a name, empty when the name has none. *)
Definition bans_of (self : FileData) (file_name : string) : list string :=
  default [] (banned_ip self !! file_name).

(** [n] failed attempts of the same pair in a row: [change_ip_attempts]
    called [n] times. *)
Fixpoint fail_n (n : nat) (self : FileData) (file_name ip : string) : FileData :=
  match n with
  | O => self
  | S n' => change_ip_attempts (fail_n n' self file_name ip) file_name ip
  end.

(** ** Behaviour of the methods *)

Lemma contains_key_true {K V} `{Countable K} (m : gmap K V) k :
  contains_key m k = true <-> is_Some (m !! k).
Proof. unfold contains_key. by rewrite bool_decide_eq_true. Qed.

Lemma access_denied_spec self f ip :
  access_denied self f ip = true <->
  is_Some (encrypted_file self !! f) /\ ip ∈ bans_of self f.
Proof.
  unfold access_denied, bans_of, vec_contains, contains_key.
  rewrite !andb_true_iff, !bool_decide_eq_true.
  destruct (banned_ip self !! f) as [v |]; simpl.
  - rewrite bool_decide_eq_true. naive_solver.
  - split; [intros [[_ []%is_Some_None] _] | intros [_ []%not_elem_of_nil]].
Qed.

Lemma key_mismatch_spec self f key :
  key_mismatch self f key = true <->
  exists k, encrypted_file self !! f = Some k /\ k <> key.
Proof.
  unfold key_mismatch, contains_key.
  destruct (encrypted_file self !! f) as [k |]; simpl.
  - rewrite negb_true_iff, bool_decide_eq_false. naive_solver.
  - naive_solver.
Qed.

Lemma change_ip_attempts_encrypted self f ip :
  encrypted_file (change_ip_attempts self f ip) = encrypted_file self.
Proof. unfold change_ip_attempts. by case_guards. Qed.

Lemma change_ip_attempts_attempts self f ip :
  ip_attempts (change_ip_attempts self f ip) =
  <[[f; ip] := u8_wrap (attempts_of self f ip + 1)]> (ip_attempts self).
Proof.
  unfold change_ip_attempts, attempts_of.
  destruct (ip_attempts self !! [f; ip]); simpl; by case_guards.
Qed.

Lemma attempts_of_change self f ip f' ip' :
  attempts_of (change_ip_attempts self f ip) f' ip' =
  if decide ([f; ip] = [f'; ip']) then u8_wrap (attempts_of self f ip + 1)
  else attempts_of self f' ip'.
Proof.
  unfold attempts_of at 1. rewrite change_ip_attempts_attempts.
  case_decide as Heq; [by rewrite <- Heq, lookup_insert_eq |].
  by rewrite lookup_insert_ne.
Qed.

Lemma change_ip_attempts_banned self f ip :
  banned_ip (change_ip_attempts self f ip) =
  if decide (u8_wrap (attempts_of self f ip + 1) = 3)
  then <[f := bans_of self f ++ [ip]]> (banned_ip self)
  else banned_ip self.
Proof.
  unfold change_ip_attempts, attempts_of, bans_of.
  destruct (ip_attempts self !! [f; ip]); simpl;
    rewrite lookup_insert_eq; by case_guards.
Qed.

Lemma bans_of_change self f ip f' :
  bans_of (change_ip_attempts self f ip) f' =
  if decide (u8_wrap (attempts_of self f ip + 1) = 3 /\ f = f')
  then bans_of self f ++ [ip] else bans_of self f'.
Proof.
  unfold bans_of at 1. rewrite change_ip_attempts_banned.
  destruct (decide (u8_wrap (attempts_of self f ip + 1) = 3)) as [H3 | H3];
    destruct (decide (f = f')) as [<- | Hne].
  - rewrite decide_True by done. by rewrite lookup_insert_eq.
  - rewrite decide_False by naive_solver. by rewrite lookup_insert_ne.
  - rewrite decide_False by naive_solver. done.
  - rewrite decide_False by naive_solver. done.
Qed.

Lemma add_encrypted_file_lookup self f key f' :
  encrypted_file (add_encrypted_file self f key) !! f' =
  if decide (f = f') then Some key else encrypted_file self !! f'.
Proof.
  unfold add_encrypted_file; simpl. case_decide; subst.
  - by rewrite lookup_insert_eq.
  - by rewrite lookup_insert_ne.
Qed.

Lemma fail_n_encrypted n self f ip :
  encrypted_file (fail_n n self f ip) = encrypted_file self.
Proof.
  induction n as [| n IH]; [done |]. simpl.
  by rewrite change_ip_attempts_encrypted.
Qed.

Lemma fail_n_counter n self f ip :
  attempts_of self f ip = 0 -> ip ∉ bans_of self f -> (n <= 255)%nat ->
  attempts_of (fail_n n self f ip) f ip = Z.of_nat n /\
  (ip ∈ bans_of (fail_n n self f ip) f <-> (3 <= n)%nat).
Proof.
  intros H0 Hban. induction n as [| n IH]; intros Hn; simpl.
  - split; [done |]. split; [done | lia].
  - destruct IH as [IHc IHb]; [lia |].
    rewrite attempts_of_change, bans_of_change, decide_True, IHc by done.
    rewrite u8_wrap_succ_small by lia.
    split; [lia |]. case_decide as H3.
    + destruct H3 as [H3 _]. split; [lia | intros _; set_solver].
    + assert (Z.of_nat n + 1 <> 3) by naive_solver. rewrite IHb. lia.
Qed.

(** C2: the counter machine of a pair.  Starting from a pair with no
    counter and no ban, [n <= 255] failed attempts leave the counter at
    [n], and the address is refused for a registered name (the test of
    lines 82-84) exactly when [n >= 3]. *)
Theorem fail_n_access_denied n self f ip :
  attempts_of self f ip = 0 -> ip ∉ bans_of self f ->
  is_Some (encrypted_file self !! f) -> (n <= 255)%nat ->
  attempts_of (fail_n n self f ip) f ip = Z.of_nat n /\
  (access_denied (fail_n n self f ip) f ip = true <-> (3 <= n)%nat).
Proof.
  intros H0 Hban Hreg Hn.
  destruct (fail_n_counter n self f ip H0 Hban Hn) as [Hc Hb].
  split; [done |]. rewrite access_denied_spec, fail_n_encrypted, Hb.
  naive_solver.
Qed.

Lemma fail_n_access_denied_witness :
  let fd := add_encrypted_file new "out.bin" 7 in
  attempts_of (fail_n 3 fd "out.bin" "A") "out.bin" "A" = 3 /\
  (access_denied (fail_n 3 fd "out.bin" "A") "out.bin" "A" = true <-> (3 <= 3)%nat).
Proof.
  apply fail_n_access_denied; [reflexivity | simpl; set_solver | simpl; by eexists | lia].
Defined.

(** Without a key for the name no address is refused, whatever the
    counters and ban lists say. *)
Lemma access_denied_unregistered self f ip :
  encrypted_file self !! f = None -> access_denied self f ip = false.
Proof.
  intros Hnone. apply not_true_is_false. rewrite access_denied_spec, Hnone.
  intros [[] _]; discriminate.
Qed.

Lemma key_mismatch_false self f key :
  encrypted_file self !! f = None \/ encrypted_file self !! f = Some key ->
  key_mismatch self f key = false.
Proof.
  intros Hf. apply not_true_iff_false. rewrite key_mismatch_spec.
  intros (k & Hk & Hne). destruct Hf as [Hf | Hf]; congruence.
Qed.

Lemma access_denied_false self f ip :
  ip ∉ bans_of self f -> access_denied self f ip = false.
Proof.
  intros Hnot. apply not_true_iff_false. rewrite access_denied_spec. naive_solver.
Qed.

End FileData.
