(* ===== verification/FileSystem.v ===== *)
(** * FileSystem: the file operations [main] calls

    [main] (src/src/main.rs) opens the input with [File::open] (line 74),
    reads it through a [BufReader] with [read_to_end] (lines 118-121),
    creates or truncates the output with [File::create] (line 129) and
    writes it through a [BufWriter] (lines 141-146, see [BufWriter]).
    [BufReader::read_to_end] hands its (empty) buffer and then the rest of
    the file to the caller, so it reads what the file's [read_to_end]
    reads.  These are the standard library's, not the repository's: the
    class [FileSystem] states the file operations, each returning a
    [result] with an [io_error] (the [std::io::Error] [main] prints);
    [fs_write_all] is the [File]'s own [write_all], under the buffer.
    [FileSystemLaws] is the one law the end-to-end theorems use: what is
    written to a freshly created file is what is read back.  [MemFS] is an
    instance, a map from names to contents where only a missing file
    fails; [DiskFS] adds a number of free bytes. *)

From S2P Require Import Prelude.

Module FileSystem.

Inductive io_error :=
  NotFound | PermissionDenied | IsADirectory | StorageFull | OtherIoError.

#[export] Instance io_error_eq_dec : EqDecision io_error.
Proof. solve_decision. Defined.

Class FileSystem (FS : Type) := {
  fs_open : FS -> string -> result unit io_error;
  fs_read_to_end : FS -> string -> result (list Z) io_error;
  fs_create : FS -> string -> result FS io_error;
  fs_write_all : FS -> string -> list Z -> result FS io_error
}.

Class FileSystemLaws (FS : Type) `{FileSystem FS} := {
  create_write_read fs fs1 fs2 name data :
    fs_create fs name = Ok fs1 -> fs_write_all fs1 name data = Ok fs2 ->
    fs_open fs2 name = Ok tt /\ fs_read_to_end fs2 name = Ok data
}.

(** ** An in-memory file system *)

Abbreviation MemFS := (gmap string (list Z)).

Definition mem_open (fs : MemFS) (name : string) : result unit io_error :=
  match fs !! name with Some _ => Ok tt | None => Err NotFound end.

Definition mem_read_to_end (fs : MemFS) (name : string) : result (list Z) io_error :=
  match fs !! name with Some data => Ok data | None => Err NotFound end.

(** [File::create] makes the file empty, creating it when it is missing. *)
Definition mem_create (fs : MemFS) (name : string) : result MemFS io_error :=
  Ok (<[name := []]> fs).

(** [write_all] appends at the position of the handle, the end of what the
    cycle has written so far. *)
Definition mem_write_all (fs : MemFS) (name : string) (data : list Z)
    : result MemFS io_error :=
  match fs !! name with
  | Some old => Ok (<[name := old ++ data]> fs)
  | None => Err NotFound
  end.

#[export] Instance MemFS_FileSystem : FileSystem MemFS := {
  fs_open := mem_open;
  fs_read_to_end := mem_read_to_end;
  fs_create := mem_create;
  fs_write_all := mem_write_all
}.

#[export] Instance MemFS_laws : FileSystemLaws MemFS.
Proof.
  constructor. simpl. unfold mem_create, mem_write_all, mem_open, mem_read_to_end.
  intros fs fs1 fs2 name data [= <-]. rewrite lookup_insert_eq.
  intros [= <-]. by rewrite !lookup_insert_eq.
Qed.

(** ** A file system with a bounded disk *)

(** The same files with a number of free bytes; [write_all] fails with
    [StorageFull] when the data does not fit, as it does on a full disk. *)
Record DiskFS := mkDiskFS { disk_files : MemFS; disk_free : nat }.

Definition disk_create (d : DiskFS) (name : string) : result DiskFS io_error :=
  Ok (mkDiskFS (<[name := []]> (disk_files d)) (disk_free d)).

Definition disk_write_all (d : DiskFS) (name : string) (data : list Z)
    : result DiskFS io_error :=
  if decide (length data <= disk_free d)%nat then
    match mem_write_all (disk_files d) name data with
    | Ok files => Ok (mkDiskFS files (disk_free d - length data))
    | Err e => Err e
    end
  else Err StorageFull.

#[export] Instance DiskFS_FileSystem : FileSystem DiskFS := {
  fs_open d := mem_open (disk_files d);
  fs_read_to_end d := mem_read_to_end (disk_files d);
  fs_create := disk_create;
  fs_write_all := disk_write_all
}.

#[export] Instance DiskFS_laws : FileSystemLaws DiskFS.
Proof.
  constructor. simpl. unfold disk_create, disk_write_all, mem_write_all, mem_open,
    mem_read_to_end.
  intros d d1 d2 name data [= <-]. simpl. rewrite lookup_insert_eq.
  case_decide; [| discriminate]. intros [= <-]. simpl. by rewrite !lookup_insert_eq.
Qed.

End FileSystem.
