(* ===== verification/BufWriter.v ===== *)
(** * BufWriter: the buffered writer of lines 141-146 (src/src/main.rs)

    [main] wraps the output [File] in [BufWriter::new] (line 141), calls
    [write_all] once (line 143) and drops the writer at the end of the
    iteration.  The standard library's [BufWriter] (capacity 8 KiB) copies
    a write shorter than its spare capacity into its buffer without any
    I/O; a longer one flushes the buffer and, when it is at least the
    capacity, is written straight to the file.  [Drop] flushes the buffer
    and ignores the error.  The file's own [write_all] is [fs_write_all] of
    the [FileSystem] class; a flush writes the whole buffer with it.

    [write_output] is what lines 141-146 do with the writer; the theorems
    show that a short output never reports an error (a failure of the
    final flush is lost), that a long one reports the file's error, and
    that when the file accepts the data both paths write exactly it. *)

From S2P Require Import Prelude FileSystem.
Import FileSystem.

Module BufWriter.

(** [std::sys_common::io::DEFAULT_BUF_SIZE], 8 KiB. *)
Definition DEFAULT_BUF_SIZE : nat := 2 ^ 13.
Arguments DEFAULT_BUF_SIZE : simpl never.

Lemma DEFAULT_BUF_SIZE_pos : (0 < DEFAULT_BUF_SIZE)%nat.
Proof. unfold DEFAULT_BUF_SIZE. apply Nat.neq_0_lt_0, Nat.pow_nonzero. lia. Qed.

Record BufWriter := mkBufWriter {
  bw_inner : string;       (* the output file *)
  bw_buf : list Z;         (* the bytes not yet written *)
  bw_panicked : bool
}.

Section WithFS.
Context {FS : Type} `{FileSystem FS}.

(** [BufWriter::new] *)
Definition new (inner : string) : BufWriter := mkBufWriter inner [] false.

Definition spare_capacity (w : BufWriter) : nat :=
  DEFAULT_BUF_SIZE - length (bw_buf w).

Definition set_buf (w : BufWriter) (b : list Z) : BufWriter :=
  mkBufWriter (bw_inner w) b (bw_panicked w).

(** [flush_buf]: the buffered bytes go to the file; on an error they stay
    in the buffer. *)
Definition flush_buf (w : BufWriter) (fs : FS) : BufWriter * FS * result unit io_error :=
  match bw_buf w with
  | [] => (w, fs, Ok tt)
  | b =>
      match fs_write_all fs (bw_inner w) b with
      | Ok fs' => (set_buf w [], fs', Ok tt)
      | Err e => (w, fs, Err e)
      end
  end.

(** [write_all_cold] *)
Definition write_all_cold (w : BufWriter) (fs : FS) (buf : list Z)
    : BufWriter * FS * result unit io_error :=
  let '(w1, fs1, r) :=
    if decide (spare_capacity w < length buf)%nat then flush_buf w fs
    else (w, fs, Ok tt) in
  match r with
  | Err e => (w1, fs1, Err e)
  | Ok _ =>
      if decide (DEFAULT_BUF_SIZE <= length buf)%nat then
        match fs_write_all fs1 (bw_inner w1) buf with
        | Ok fs2 => (w1, fs2, Ok tt)
        | Err e => (w1, fs1, Err e)
        end
      else (set_buf w1 (bw_buf w1 ++ buf), fs1, Ok tt)
  end.

(** [<BufWriter as Write>::write_all] *)
Definition write_all (w : BufWriter) (fs : FS) (buf : list Z)
    : BufWriter * FS * result unit io_error :=
  if decide (length buf < spare_capacity w)%nat
  then (set_buf w (bw_buf w ++ buf), fs, Ok tt)
  else write_all_cold w fs buf.

(** [<BufWriter as Drop>::drop]: flush and ignore the result. *)
Definition drop (w : BufWriter) (fs : FS) : FS :=
  if bw_panicked w then fs else (flush_buf w fs).1.2.

(** Lines 141-146: a new writer on the output, one [write_all], and the
    drop at the end of the iteration (after [continue] too).  The result is
    what [write_all] returned, the file system is the one after the drop. *)
Definition write_output (fs : FS) (output_file_name : string) (data : list Z)
    : FS * result unit io_error :=
  let '(w1, fs1, r) := write_all (new output_file_name) fs data in
  (drop w1 fs1, r).

(** ** Behaviour *)

(** A short output stays in the buffer until the drop, which writes it
    and keeps the file system only when the file accepts it. *)
Lemma write_output_short data fs name :
  (length data < DEFAULT_BUF_SIZE)%nat ->
  write_output fs name data =
    (match data with
     | [] => fs
     | _ => match fs_write_all fs name data with Ok fs' => fs' | Err _ => fs end
     end, Ok tt).
Proof.
  intros Hlen. unfold write_output, write_all, spare_capacity, new; cbn -[DEFAULT_BUF_SIZE].
  rewrite decide_True by lia. unfold drop, flush_buf; simpl.
  destruct data as [| b data]; [done |].
  by destruct fs_write_all.
Qed.

(** C18: an output shorter than the buffer is reported written whatever
    the file does: the file's [write_all] runs only at the drop, whose error
    is discarded. *)
Theorem write_output_short_never_fails data fs name :
  (length data < DEFAULT_BUF_SIZE)%nat -> (write_output fs name data).2 = Ok tt.
Proof. intros Hlen. by rewrite write_output_short. Qed.

(** An output of at least the buffer's size goes straight to the file and
    its error is reported. *)
Lemma write_output_long data fs name :
  (DEFAULT_BUF_SIZE <= length data)%nat ->
  write_output fs name data =
    match fs_write_all fs name data with
    | Ok fs' => (fs', Ok tt)
    | Err e => (fs, Err e)
    end.
Proof.
  intros Hlen. unfold write_output, write_all, write_all_cold, spare_capacity, new;
    cbn -[DEFAULT_BUF_SIZE].
  rewrite decide_False by lia.
  destruct (decide (DEFAULT_BUF_SIZE - 0 < length data)%nat); cbn -[DEFAULT_BUF_SIZE];
    rewrite decide_True by lia; by destruct fs_write_all.
Qed.

(** When the file accepts the data, the writer writes exactly it, on both
    paths: the buffering is invisible. *)
Lemma write_output_accepted data fs fs' name :
  fs_write_all fs name data = Ok fs' -> data <> [] ->
  write_output fs name data = (fs', Ok tt).
Proof.
  intros Hw Hne.
  destruct (decide (length data < DEFAULT_BUF_SIZE)%nat).
  - rewrite write_output_short by done. destruct data; [done |]. by rewrite Hw.
  - rewrite write_output_long by lia. by rewrite Hw.
Qed.

(** A reported error comes from a long output. *)
Lemma write_output_error data fs name fs1 e :
  write_output fs name data = (fs1, Err e) ->
  (DEFAULT_BUF_SIZE <= length data)%nat /\ fs1 = fs /\ fs_write_all fs name data = Err e.
Proof.
  destruct (decide (length data < DEFAULT_BUF_SIZE)%nat) as [Hs | Hl].
  - by rewrite write_output_short.
  - rewrite write_output_long by lia. destruct fs_write_all; intros [= <- <-]; split_and!; [lia | done | done].
Qed.

End WithFS.

(** A two-byte output on a full disk. *)
Lemma write_output_short_never_fails_witness :
  (write_output (mkDiskFS (<["out.bin" := []]> ∅) 0) "out.bin" [1; 2]).2 = Ok tt.
Proof.
  apply write_output_short_never_fails. simpl.
  pose proof DEFAULT_BUF_SIZE_pos. unfold DEFAULT_BUF_SIZE in *. simpl. lia.
Defined.

(** On the in-memory file system the writer appends the data to the file. *)
Lemma mem_write_output (fs : MemFS) name old data :
  fs !! name = Some old ->
  write_output fs name data = (<[name := old ++ data]> fs, Ok tt).
Proof.
  intros Hold. destruct data as [| b data].
  - rewrite write_output_short by apply DEFAULT_BUF_SIZE_pos.
    by rewrite app_nil_r, insert_id.
  - apply write_output_accepted; [| done]. simpl. unfold mem_write_all. by rewrite Hold.
Qed.

End BufWriter.
