(* ===== verification/Session.v ===== *)
(** * Session: the loop of [main] (src/src/main.rs, lines 66-149)

    A world is what one iteration of the loop reads and changes: the
    [FileData] of line 68, the file system and the lines still to be read
    from standard input.  [cycle] is the body of the loop, with each
    [continue] returning the message the iteration printed as a
    [report].  [main] never leaves the loop, so the loop is the step
    relation [step]: a cycle, or a move of the environment that changes
    the files or what the operator will type next.  The invariants of the
    reachable worlds are proved by induction on the steps, from one lemma,
    [cycle_effect], that lists the three ways a cycle can change the
    guard. *)

From S2P Require Import Prelude Cipher KeyInput FileData FileSystem BufWriter.
Import Cipher KeyInput FileData FileSystem.

Module Session.

(** The messages of the loop, by the line that prints them. *)
Inductive report :=
| CantOpen (name : string) (err : io_error)    (* line 77 *)
| AccessDenied                                 (* line 85 *)
| BadKey (err : key_error)                     (* lines 95-98 *)
| UselessKey                                   (* line 106 *)
| IncorrectKey                                 (* line 113 *)
| ReadError (err : io_error)                   (* line 122 *)
| CantCreate (name : string) (err : io_error)  (* line 132 *)
| WriteError (err : io_error)                  (* line 144 *)
| Processed.                                   (* line 148 *)

Section Loop.
Context {FS : Type} `{FileSystem FS}.

Record World := mkWorld {
  files_info : FileData;
  fs : FS;
  stdin : list string
}.

(** One iteration of [loop] (lines 71-148). *)
Definition cycle (user_ip : string) (w : World) : World * report :=
  let info := files_info w in
  let '(input_file_name, stdin1) := get_input (stdin w) in
  match fs_open (fs w) input_file_name with
  | Err err => (mkWorld info (fs w) stdin1, CantOpen input_file_name err)
  | Ok _ =>
    if access_denied info input_file_name user_ip
    then (mkWorld info (fs w) stdin1, AccessDenied) else
    let '(key_line, stdin2) := get_input stdin1 in
    match read_key key_line with
    | Err err => (mkWorld info (fs w) stdin2, BadKey err)
    | Ok key =>
      if decide (key = 0) then (mkWorld info (fs w) stdin2, UselessKey) else
      if key_mismatch info input_file_name key
      then (mkWorld (change_ip_attempts info input_file_name user_ip) (fs w) stdin2,
            IncorrectKey) else
      match fs_read_to_end (fs w) input_file_name with
      | Err err => (mkWorld info (fs w) stdin2, ReadError err)
      | Ok input_data =>
        let processed_data := process_file_data input_data key in
        let '(output_file_name, stdin3) := get_input stdin2 in
        match fs_create (fs w) output_file_name with
        | Err err => (mkWorld info (fs w) stdin3, CantCreate output_file_name err)
        | Ok fs1 =>
          let info1 :=
            if negb (contains_key (encrypted_file info) input_file_name)
            then add_encrypted_file info output_file_name key else info in
          match BufWriter.write_output fs1 output_file_name processed_data with
          | (fs2, Err err) => (mkWorld info1 fs2 stdin3, WriteError err)
          | (fs2, Ok _) => (mkWorld info1 fs2 stdin3, Processed)
          end
        end
      end
    end
  end.

(** The loop: an iteration, or the environment changing the files and
    the operator's future input; [user_ip] is fixed by line 67. *)
Inductive step (user_ip : string) : World -> World -> Prop :=
| step_cycle w : step user_ip w (fst (cycle user_ip w))
| step_env w fs' stdin' : step user_ip w (mkWorld (files_info w) fs' stdin').

(** Line 68: the loop starts with an empty [FileData]. *)
Definition init (fs0 : FS) (stdin0 : list string) : World :=
  mkWorld FileData.new fs0 stdin0.

Definition reachable (user_ip : string) (w : World) : Prop :=
  exists fs0 stdin0, rtc (step user_ip) (init fs0 stdin0) w.

(** ** The three ways a cycle changes the guard *)

Inductive guard_effect (user_ip : string) (g : FileData) : FileData -> Prop :=
| effect_none : guard_effect user_ip g g
| effect_fail f key :
    access_denied g f user_ip = false -> key_mismatch g f key = true ->
    guard_effect user_ip g (change_ip_attempts g f user_ip)
| effect_register f o key :
    encrypted_file g !! f = None -> is_u8 key -> key <> 0 ->
    guard_effect user_ip g (add_encrypted_file g o key).

Lemma read_key_u8 line key : read_key line = Ok key -> is_u8 key.
Proof.
  unfold read_key. pose proof (u8_from_str_outcome line).
  destruct (u8_from_str line); naive_solver.
Qed.

Lemma cycle_effect user_ip w :
  guard_effect user_ip (files_info w) (files_info (fst (cycle user_ip w))).
Proof.
  unfold cycle.
  destruct (get_input (stdin w)) as [f stdin1].
  destruct (fs_open (fs w) f); simpl; [| constructor].
  destruct (access_denied (files_info w) f user_ip) eqn:Hden; [constructor |].
  destruct (get_input stdin1) as [kl stdin2].
  destruct (read_key kl) as [key |] eqn:Hkey; [| constructor].
  case_decide; [constructor |].
  destruct (key_mismatch _ f key) eqn:Hmis; [by eapply effect_fail |].
  destruct (fs_read_to_end (fs w) f); [| constructor].
  destruct (get_input stdin2) as [o stdin3].
  destruct (fs_create (fs w) o); [| constructor].
  destruct (contains_key (encrypted_file (files_info w)) f) eqn:Hreg; simpl.
  - destruct BufWriter.write_output as [? []]; constructor.
  - apply not_true_iff_false in Hreg. rewrite contains_key_true in Hreg.
    apply eq_None_not_Some in Hreg.
    destruct BufWriter.write_output as [? []]; (eapply effect_register; [exact Hreg | | done]);
      by eapply read_key_u8.
Qed.

(** ** The invariant of the guard *)

(** Counters are between 0 and 3 and exist only for registered names; an
    address is in the ban list of a name exactly when its counter for the
    name is 3; ban lists have no duplicates; registered keys are in
    [1, 255]. *)
Definition guard_inv (g : FileData) : Prop :=
  (forall f a, 0 <= attempts_of g f a <= 3) /\
  (forall f a, attempts_of g f a <> 0 -> is_Some (encrypted_file g !! f)) /\
  (forall f a, a ∈ bans_of g f <-> attempts_of g f a = 3) /\
  (forall f, NoDup (bans_of g f)) /\
  (forall f k, encrypted_file g !! f = Some k -> 1 <= k <= 255).

Lemma guard_inv_new : guard_inv FileData.new.
Proof.
  unfold guard_inv, attempts_of, bans_of; simpl.
  split_and!; intros *; rewrite ?lookup_empty; simpl;
    [lia | done | set_solver | constructor | done].
Qed.

(** Before a failed attempt is recorded the counter is below 3. *)
Lemma attempts_below_3 g f ip :
  guard_inv g -> is_Some (encrypted_file g !! f) ->
  access_denied g f ip = false -> 0 <= attempts_of g f ip <= 2.
Proof.
  intros (Hrange & _ & Hban & _) Hreg Hden.
  assert (ip ∉ bans_of g f) as Hnot.
  { intros Hin. assert (access_denied g f ip = true) by (by apply access_denied_spec).
    congruence. }
  rewrite Hban in Hnot. specialize (Hrange f ip). lia.
Qed.

Lemma guard_inv_change g f ip :
  guard_inv g -> is_Some (encrypted_file g !! f) ->
  access_denied g f ip = false -> guard_inv (change_ip_attempts g f ip).
Proof.
  intros Hinv Hreg Hden.
  pose proof (attempts_below_3 g f ip Hinv Hreg Hden) as Hc.
  assert (ip ∉ bans_of g f) as Hnot by (destruct Hinv as (_ & _ & Hban & _); rewrite Hban; lia).
  destruct Hinv as (Hrange & Hcnt & Hban & Hnd & Hkeys).
  unfold guard_inv. rewrite change_ip_attempts_encrypted.
  split_and!; intros *; rewrite ?attempts_of_change, ?bans_of_change;
    rewrite ?u8_wrap_succ_small by lia.
  - case_decide; [lia | apply Hrange].
  - case_decide as Heq; [simplify_eq; done | apply Hcnt].
  - repeat case_decide; destruct_and?; simplify_eq;
      rewrite ?elem_of_app, ?list_elem_of_singleton, ?Hban; try naive_solver lia.
  - case_decide as Hc3; [destruct Hc3 as [_ <-] |]; [| apply Hnd].
    apply NoDup_app. split_and!; [apply Hnd | set_solver | apply NoDup_singleton].
  - apply Hkeys.
Qed.

Lemma guard_inv_register g o key :
  guard_inv g -> 1 <= key <= 255 -> guard_inv (add_encrypted_file g o key).
Proof.
  intros (Hrange & Hcnt & Hban & Hnd & Hkeys) Hkey.
  unfold guard_inv, attempts_of, bans_of in *; simpl.
  split_and!; try done.
  - intros f a Ha. rewrite lookup_insert_is_Some'. right. by apply (Hcnt f a).
  - intros f k. rewrite lookup_insert_Some. intros [[_ <-] | [_ Hk]]; [done | by apply (Hkeys f)].
Qed.

Lemma guard_inv_effect ip g g' :
  guard_effect ip g g' -> guard_inv g -> guard_inv g'.
Proof.
  intros [| f key Hden Hmis | f o key _ Hkey Hnz] Hinv; [done | |].
  - apply guard_inv_change; [done | | done].
    apply key_mismatch_spec in Hmis. destruct Hmis as (k & Hk & _). by eexists.
  - apply guard_inv_register; [done |]. unfold is_u8 in Hkey. lia.
Qed.

Lemma step_guard_effect ip w w' :
  step ip w w' -> guard_effect ip (files_info w) (files_info w').
Proof. intros [w0 | w0 fs' stdin']; [apply cycle_effect | constructor]. Qed.

(** The invariant holds along every run of the loop. *)
Lemma rtc_guard_inv ip w w' :
  rtc (step ip) w w' -> guard_inv (files_info w) -> guard_inv (files_info w').
Proof.
  induction 1 as [w | w0 w1 w2 Hstep _ IH]; [done |].
  intros Hinv. apply IH. by eapply guard_inv_effect; [apply step_guard_effect |].
Qed.

(** C1: every reachable world satisfies the guard invariant: counters stay
    in [0, 3], exist only for registered names, equal 3 exactly for the
    banned addresses, ban lists have no duplicates and registered keys are
    in [1, 255]. *)
Theorem reachable_guard_inv ip w : reachable ip w -> guard_inv (files_info w).
Proof.
  intros (fs0 & stdin0 & Hsteps). eapply rtc_guard_inv; [exact Hsteps |].
  apply guard_inv_new.
Qed.

Lemma reachable_init ip fs0 stdin0 : reachable ip (init fs0 stdin0).
Proof. exists fs0, stdin0. constructor. Qed.


(** C5: a cycle that ends in an error other than a wrong key or a failed
    write leaves the guard as it was; the all-or-nothing rule of the
    loop. *)
Theorem cycle_error_keeps_guard ip w w' r :
  cycle ip w = (w', r) -> r <> IncorrectKey -> r <> Processed ->
  (forall e, r <> WriteError e) -> files_info w' = files_info w.
Proof.
  unfold cycle. intros Hc Hr1 Hr2 Hr3.
  repeat (case_match || case_decide); simplify_eq/=; naive_solver.
Qed.


(** The refusal path, forwards. *)
Lemma cycle_access_denied ip w f rest :
  get_input (stdin w) = (f, rest) -> fs_open (fs w) f = Ok tt ->
  access_denied (files_info w) f ip = true ->
  cycle ip w = (mkWorld (files_info w) (fs w) rest, AccessDenied).
Proof. intros Hin Hopen Hden. unfold cycle. by rewrite Hin, Hopen, Hden. Qed.

(** C3: an address banned for a registered name is refused right after the
    file is opened: the cycle prints "Access denied", reads no key (the
    rest of standard input is untouched) and changes nothing. *)
Theorem cycle_banned_refused ip w f rest :
  get_input (stdin w) = (f, rest) -> fs_open (fs w) f = Ok tt ->
  is_Some (encrypted_file (files_info w) !! f) -> ip ∈ bans_of (files_info w) f ->
  cycle ip w = (mkWorld (files_info w) (fs w) rest, AccessDenied).
Proof.
  intros Hin Hopen Hreg Hban. apply (cycle_access_denied ip w f rest); [done | done |].
  by apply access_denied_spec.
Qed.

(** The wrong-key path, forwards. *)
Lemma cycle_wrong_key ip w f stdin1 key_line stdin2 key :
  get_input (stdin w) = (f, stdin1) -> fs_open (fs w) f = Ok tt ->
  access_denied (files_info w) f ip = false ->
  get_input stdin1 = (key_line, stdin2) -> read_key key_line = Ok key -> key <> 0 ->
  key_mismatch (files_info w) f key = true ->
  cycle ip w = (mkWorld (change_ip_attempts (files_info w) f ip) (fs w) stdin2, IncorrectKey).
Proof.
  intros Hin Hopen Hden Hin1 Hkey Hnz Hmis.
  unfold cycle. by rewrite Hin, Hopen, Hden, Hin1, Hkey, decide_False, Hmis.
Qed.

(** Names never leave the registry and ban lists only grow. *)
Lemma guard_effect_mono ip g g' f :
  guard_effect ip g g' ->
  (is_Some (encrypted_file g !! f) -> is_Some (encrypted_file g' !! f)) /\
  bans_of g f ⊆ bans_of g' f.
Proof.
  intros [| f' key _ _ | f' o key _ _ _].
  - done.
  - rewrite change_ip_attempts_encrypted, bans_of_change.
    split; [done |]. case_decide as Hc; [destruct Hc as [_ <-] |]; set_solver.
  - unfold bans_of. simpl. split; [| done].
    rewrite lookup_insert_is_Some'. by right.
Qed.

(** C4: a ban is terminal: once an address is refused for a name, it is
    refused in every later world of the loop. *)
Theorem access_denied_persists ip w w' f a :
  rtc (step ip) w w' -> access_denied (files_info w) f a = true ->
  access_denied (files_info w') f a = true.
Proof.
  induction 1 as [w | w0 w1 w2 Hstep _ IH]; [done |].
  intros Hden. apply IH. rewrite access_denied_spec in *.
  destruct (guard_effect_mono ip _ _ f (step_guard_effect ip w0 w1 Hstep)) as [Hreg Hsub].
  destruct Hden as [Hr Hb]. split; [by apply Hreg | by apply Hsub].
Qed.

(** The success path, forwards: when every step succeeds the cycle
    prints its success line. *)
(** The last step of a cycle that got as far as [File::create]: the
    message is what [write_all] returned. *)
Lemma cycle_write_path ip w f stdin1 key_line stdin2 o stdin3 key data fs1 fs2 r :
  get_input (stdin w) = (f, stdin1) -> fs_open (fs w) f = Ok tt ->
  access_denied (files_info w) f ip = false ->
  get_input stdin1 = (key_line, stdin2) -> read_key key_line = Ok key -> key <> 0 ->
  key_mismatch (files_info w) f key = false ->
  fs_read_to_end (fs w) f = Ok data -> get_input stdin2 = (o, stdin3) ->
  fs_create (fs w) o = Ok fs1 ->
  BufWriter.write_output fs1 o (process_file_data data key) = (fs2, r) ->
  cycle ip w =
    (mkWorld (if contains_key (encrypted_file (files_info w)) f
              then files_info w else add_encrypted_file (files_info w) o key)
             fs2 stdin3, match r with Ok _ => Processed | Err e => WriteError e end).
Proof.
  intros Hin Hopen Hden Hin1 Hkey Hnz Hmis Hread Hin2 Hcreate Hwrite.
  unfold cycle. rewrite Hin, Hopen, Hden, Hin1, Hkey, decide_False, Hmis, Hread, Hin2,
    Hcreate by done.
  simpl. rewrite Hwrite. by destruct contains_key, r.
Qed.

Lemma cycle_processes ip w f stdin1 key_line stdin2 o stdin3 key data fs1 fs2 :
  get_input (stdin w) = (f, stdin1) -> fs_open (fs w) f = Ok tt ->
  access_denied (files_info w) f ip = false ->
  get_input stdin1 = (key_line, stdin2) -> read_key key_line = Ok key -> key <> 0 ->
  key_mismatch (files_info w) f key = false ->
  fs_read_to_end (fs w) f = Ok data -> get_input stdin2 = (o, stdin3) ->
  fs_create (fs w) o = Ok fs1 ->
  BufWriter.write_output fs1 o (process_file_data data key) = (fs2, Ok tt) ->
  cycle ip w =
    (mkWorld (if contains_key (encrypted_file (files_info w)) f
              then files_info w else add_encrypted_file (files_info w) o key)
             fs2 stdin3, Processed).
Proof. intros. by eapply (cycle_write_path _ _ _ _ _ _ _ _ _ _ _ _ (Ok tt)). Qed.

(** C6: what a cycle that prints its blank success line did: it read the
    input name, a key line that parses to a non-zero [key], and an output
    name; the address was not refused and the key was not a mismatch; it
    wrote [process_file_data data key] of the input [data] to the created
    output; and it registered the output name with [key] exactly when the
    input name had no key. *)
Theorem cycle_processed ip w w' :
  cycle ip w = (w', Processed) ->
  exists f stdin1 key_line stdin2 o key data fs1,
    get_input (stdin w) = (f, stdin1) /\ get_input stdin1 = (key_line, stdin2) /\
    get_input stdin2 = (o, stdin w') /\
    read_key key_line = Ok key /\ key <> 0 /\
    access_denied (files_info w) f ip = false /\
    key_mismatch (files_info w) f key = false /\
    fs_read_to_end (fs w) f = Ok data /\ fs_create (fs w) o = Ok fs1 /\
    BufWriter.write_output fs1 o (process_file_data data key) = (fs w', Ok tt) /\
    files_info w' =
      (if contains_key (encrypted_file (files_info w)) f
       then files_info w else add_encrypted_file (files_info w) o key).
Proof.
  unfold cycle. intros Hc.
  repeat (case_match || case_decide); simplify_eq/=; try discriminate.
  all: repeat match goal with u : () |- _ => destruct u end.
  all: eexists _, _, _, _, _, _, _, _; split_and!; try done; by case_match.
Qed.

(** C8: the registry entry of the output name is replaced.  A cycle that
    succeeds on an input name with no key sets the key of the output name
    to the key it used, [HashMap::insert] of line 40, whatever key the
    output name had before; the specification's "first registration wins"
    does not hold. *)
Theorem cycle_registration_overwrites ip w w' f stdin1 key_line stdin2 o key :
  cycle ip w = (w', Processed) ->
  get_input (stdin w) = (f, stdin1) -> get_input stdin1 = (key_line, stdin2) ->
  get_input stdin2 = (o, stdin w') -> read_key key_line = Ok key ->
  encrypted_file (files_info w) !! f = None ->
  encrypted_file (files_info w') = <[o := key]> (encrypted_file (files_info w)).
Proof.
  intros Hc Hin Hin1 Hin2 Hkey Hunreg.
  assert (contains_key (encrypted_file (files_info w)) f = false) as Hnew
    by (unfold contains_key; rewrite bool_decide_eq_false_2 by (rewrite Hunreg; apply is_Some_None); done).
  destruct w' as [g' fs' s']. unfold cycle in Hc.
  rewrite Hin, Hin1, Hkey, Hnew in Hc. simpl in *.
  repeat (case_match || case_decide); simplify_eq/=; done.
Qed.

(** C9: a failed write still registers the output.  When [write_all]
    fails (line 143) on an input name with no key, the output name read on
    the third line has already been registered (line 138) with the key of
    the second line, and nothing else of the guard changed; the
    specification's "no error corrupts the registry" does not hold. *)
Theorem cycle_write_error_registers ip w w' e f stdin1 key_line stdin2 o key :
  cycle ip w = (w', WriteError e) ->
  get_input (stdin w) = (f, stdin1) -> get_input stdin1 = (key_line, stdin2) ->
  get_input stdin2 = (o, stdin w') -> read_key key_line = Ok key ->
  encrypted_file (files_info w) !! f = None ->
  files_info w' = add_encrypted_file (files_info w) o key.
Proof.
  intros Hc Hin Hin1 Hin2 Hkey Hunreg.
  assert (contains_key (encrypted_file (files_info w)) f = false) as Hnew
    by (unfold contains_key; rewrite bool_decide_eq_false_2 by (rewrite Hunreg; apply is_Some_None); done).
  destruct w' as [g' fs' s']. unfold cycle in Hc.
  rewrite Hin, Hin1, Hkey, Hnew in Hc. simpl in *.
  repeat (case_match || case_decide); simplify_eq/=; done.
Qed.

(** C16: at the end of standard input [read_line] returns nothing, [get_input]
    the empty name, and a file system that cannot open [""] makes the
    cycle a fixed point: the loop prints the same error forever. *)
Theorem cycle_eof_spins ip w e :
  stdin w = [] -> fs_open (fs w) "" = Err e ->
  cycle ip w = (w, CantOpen "" e).
Proof.
  intros Hin Hopen. unfold cycle. rewrite Hin. simpl. rewrite Hopen.
  by destruct w as [g fsys []]; simplify_eq/=.
Qed.

(** C19: a reported write error comes from an input of at least 8 KiB: shorter
    outputs stay in the [BufWriter] until the drop. *)
Theorem cycle_write_error_long ip w w' e :
  cycle ip w = (w', WriteError e) ->
  exists f stdin1 data,
    get_input (stdin w) = (f, stdin1) /\ fs_read_to_end (fs w) f = Ok data /\
    (BufWriter.DEFAULT_BUF_SIZE <= length data)%nat.
Proof.
  unfold cycle. intros Hc.
  repeat (case_match || case_decide); simplify_eq/=; try discriminate.
  all: match goal with
  | Hw : BufWriter.write_output _ _ _ = (_, Err _) |- _ =>
      apply BufWriter.write_output_error in Hw; destruct Hw as (Hlen & _ & _)
  end.
  all: eexists _, _, _; split_and!; [done | done |].
  all: revert Hlen; unfold_cipher; by rewrite length_xor_all.
Qed.

(** C21: a failed write of a short output is not reported.  On the success
    path up to [File::create], when the file refuses the processed bytes of
    an input shorter than 8 KiB, the cycle still prints its success line;
    the output stays as [File::create] left it and is registered. *)
Theorem cycle_short_write_failure_hidden ip w f stdin1 key_line stdin2 o stdin3 key data fs1 e :
  get_input (stdin w) = (f, stdin1) -> fs_open (fs w) f = Ok tt ->
  access_denied (files_info w) f ip = false ->
  get_input stdin1 = (key_line, stdin2) -> read_key key_line = Ok key -> key <> 0 ->
  key_mismatch (files_info w) f key = false ->
  fs_read_to_end (fs w) f = Ok data -> get_input stdin2 = (o, stdin3) ->
  fs_create (fs w) o = Ok fs1 ->
  data <> [] -> (length data < BufWriter.DEFAULT_BUF_SIZE)%nat ->
  fs_write_all fs1 o (process_file_data data key) = Err e ->
  cycle ip w =
    (mkWorld (if contains_key (encrypted_file (files_info w)) f
              then files_info w else add_encrypted_file (files_info w) o key)
             fs1 stdin3, Processed).
Proof.
  intros Hin Hopen Hden Hin1 Hkey Hnz Hmis Hread Hin2 Hcreate Hne Hshort Hwrite.
  eapply cycle_processes; try done.
  assert (length (process_file_data data key) = length data) as Hl
    by (unfold_cipher; apply length_xor_all).
  rewrite BufWriter.write_output_short by lia.
  destruct (process_file_data data key) eqn:Hp; [by destruct data; simplify_eq/= |].
  simpl. by rewrite Hwrite.
Qed.

(** ** Runs of the loop on a script *)

(** [n] iterations of the loop, with the messages they print. *)
Fixpoint run_cycles (n : nat) (ip : string) (w : World) : World * list report :=
  match n with
  | O => (w, [])
  | S n' =>
      let '(w1, r) := cycle ip w in
      let '(w2, rs) := run_cycles n' ip w1 in
      (w2, r :: rs)
  end.

Section ScenarioB.
Variables (ip : string) (g : FileData) (fsys : FS) (fl kl : string) (rest : list string)
          (k0 key : Z).
Hypotheses (Hopen : fs_open fsys (trim fl) = Ok tt)
           (Hreg : encrypted_file g !! trim fl = Some k0)
           (Hkey : read_key (trim kl) = Ok key) (Hnz : key <> 0) (Hwrong : key <> k0)
           (Hfresh : attempts_of g (trim fl) ip = 0) (Hnoban : ip ∉ bans_of g (trim fl)).

(** The [k]-th wrong key, for [k < 3], is recorded and the cycle goes on. *)
Lemma cycle_wrong_key_n k stdin' :
  (k < 3)%nat ->
  cycle ip (mkWorld (FileData.fail_n k g (trim fl) ip) fsys (fl :: kl :: stdin')) =
  (mkWorld (FileData.fail_n (S k) g (trim fl) ip) fsys stdin', IncorrectKey).
Proof.
  intros Hk.
  destruct (fail_n_counter k g (trim fl) ip Hfresh Hnoban ltac:(lia)) as [_ Hb].
  apply (cycle_wrong_key ip (mkWorld (FileData.fail_n k g (trim fl) ip) fsys (fl :: kl :: stdin'))
           (trim fl) (kl :: stdin') (trim kl) stdin' key);
    try done; simpl.
  - apply access_denied_false. rewrite Hb. lia.
  - apply key_mismatch_spec. rewrite fail_n_encrypted. by exists k0.
Qed.

(** C20: Scenario B of the specification.  Three wrong keys in a row for a
    registered name are answered "Incorrect key"; the fourth attempt is
    refused before its key is read, and the pair's counter stands at 3. *)
Theorem three_wrong_keys_then_denied :
  run_cycles 4 ip (mkWorld g fsys (fl :: kl :: fl :: kl :: fl :: kl :: fl :: kl :: rest)) =
  (mkWorld (FileData.fail_n 3 g (trim fl) ip) fsys (kl :: rest),
   [IncorrectKey; IncorrectKey; IncorrectKey; AccessDenied]).
Proof.
  destruct (fail_n_counter 3 g (trim fl) ip Hfresh Hnoban ltac:(lia)) as [_ Hb].
  simpl run_cycles.
  rewrite (cycle_wrong_key_n 0) by lia.
  rewrite (cycle_wrong_key_n 1) by lia.
  rewrite (cycle_wrong_key_n 2) by lia.
  rewrite (cycle_access_denied ip _ (trim fl) (kl :: rest)); [done | done | done |].
  cbn [files_info]. apply access_denied_spec. split; [| by apply Hb].
  rewrite fail_n_encrypted. by exists k0.
Qed.

End ScenarioB.

End Loop.

(** ** Runs on the in-memory file system *)

Lemma cycle_error_keeps_guard_witness :
  let w := mkWorld FileData.new (∅ : MemFS) ["a.txt"%string] in
  cycle "A" w = (mkWorld FileData.new ∅ [], CantOpen "a.txt" NotFound) /\
  files_info (mkWorld FileData.new (∅ : MemFS) []) = files_info w.
Proof.
  split; [reflexivity |].
  apply (cycle_error_keeps_guard "A" _ _ (CantOpen "a.txt" NotFound));
    [reflexivity | discriminate | discriminate | discriminate].
Defined.

(** A world where address "A" has failed three times on "out.bin". *)
Definition banned_world : @World MemFS :=
  mkWorld (FileData.fail_n 3 (add_encrypted_file FileData.new "out.bin" 7) "out.bin" "A")
          (<["out.bin" := [1]]> ∅) ["out.bin"%string; "7"%string].

Lemma cycle_banned_refused_witness :
  cycle "A" banned_world =
    (mkWorld (files_info banned_world) (fs banned_world) ["7"%string], AccessDenied).
Proof.
  apply (cycle_banned_refused "A" banned_world "out.bin");
    [reflexivity | reflexivity | by eexists | simpl; set_solver].
Defined.

(** C7: end-to-end round trip on the in-memory file system.  A cycle
    encrypts an unregistered input [a] with [key] into [b] and registers
    [b]; the next cycle, given [b], the same key and [c], is accepted
    and writes to [c] the original contents of [a]. *)
Theorem encrypt_decrypt_roundtrip ip g (fsys : MemFS) a b c key_line rest data key :
  fsys !! trim a = Some data -> read_key (trim key_line) = Ok key -> key <> 0 ->
  encrypted_file g !! trim a = None -> ip ∉ bans_of g (trim b) ->
  let '(w1, r1) := cycle ip (mkWorld g fsys (a :: key_line :: b :: b :: key_line :: c :: rest)) in
  let '(w2, r2) := cycle ip w1 in
  r1 = Processed /\ r2 = Processed /\ fs w2 !! trim c = Some data /\
  encrypted_file (files_info w2) !! trim b = Some key /\ stdin w2 = rest.
Proof.
  intros Hdata Hkey Hnz Hunreg Hnotban.
  set (enc := process_file_data data key).
  set (g1 := add_encrypted_file g (trim b) key).
  set (fs1 := <[trim b := enc]> fsys).
  rewrite (cycle_processes ip _ (trim a) (key_line :: b :: b :: key_line :: c :: rest)
             (trim key_line) (b :: b :: key_line :: c :: rest)
             (trim b) (b :: key_line :: c :: rest) key data (<[trim b := []]> fsys) fs1);
    [| done | by simpl; unfold mem_open; rewrite Hdata
     | by apply access_denied_unregistered | done | done | done
     | by apply key_mismatch_false; left
     | by simpl; unfold mem_read_to_end; rewrite Hdata | done | done
     | by rewrite (BufWriter.mem_write_output _ _ []), insert_insert_eq by apply lookup_insert_eq].
  unfold contains_key.
  rewrite bool_decide_eq_false_2 by (simpl; rewrite Hunreg; apply is_Some_None).
  fold g1.
  rewrite (cycle_processes ip _ (trim b) (key_line :: c :: rest) (trim key_line)
             (c :: rest) (trim c) rest key enc (<[trim c := []]> fs1)
             (<[trim c := data]> fs1));
    [| done | by simpl; unfold mem_open, fs1; rewrite lookup_insert_eq
     | by apply access_denied_false | done | done | done
     | by apply key_mismatch_false; right; simpl; rewrite lookup_insert_eq
     | by simpl; unfold mem_read_to_end, fs1; rewrite lookup_insert_eq | done | done
     | by rewrite (BufWriter.mem_write_output _ _ []), insert_insert_eq by apply lookup_insert_eq;
         unfold enc; unfold_cipher; rewrite xor_all_involutive].
  unfold contains_key.
  rewrite bool_decide_eq_true_2 by (simpl; rewrite lookup_insert_eq; by eexists).
  split_and!; try done; simpl; by rewrite lookup_insert_eq.
Qed.

Lemma encrypt_decrypt_roundtrip_witness :
  let '(w1, r1) := cycle "A" (mkWorld FileData.new (<["a.txt" := [72; 105]]> ∅ : MemFS)
                     ["a.txt"; "42"; "b.bin"; "b.bin"; "42"; "c.txt"]%string) in
  let '(w2, r2) := cycle "A" w1 in
  r1 = Processed /\ r2 = Processed /\ fs w2 !! trim "c.txt" = Some [72; 105] /\
  encrypted_file (files_info w2) !! trim "b.bin" = Some 42 /\ stdin w2 = [].
Proof.
  apply (encrypt_decrypt_roundtrip "A" FileData.new (<["a.txt" := [72; 105]]> ∅)
           "a.txt" "b.bin" "c.txt" "42" [] [72; 105] 42);
    [reflexivity | reflexivity | lia | reflexivity | simpl; set_solver].
Defined.

(** Encrypting "a.txt" with key 7 into "out.bin", then "b.txt" with key 9
    into the same "out.bin". *)
Definition overwrite_world : @World MemFS :=
  mkWorld (add_encrypted_file FileData.new "out.bin" 7)
          (<["b.txt" := [1; 2]]> (<["out.bin" := [6; 5]]> ∅))
          ["b.txt"; "9"; "out.bin"]%string.

Lemma cycle_registration_overwrites_witness :
  encrypted_file (files_info (fst (cycle "A" overwrite_world))) =
  <["out.bin" := 9]> (encrypted_file (files_info overwrite_world)).
Proof.
  apply (cycle_registration_overwrites "A" overwrite_world _ "b.txt" ["9"; "out.bin"]%string
           "9" ["out.bin"%string] "out.bin" 9); reflexivity.
Defined.

Example registration_overwritten :
  encrypted_file (files_info overwrite_world) !! "out.bin" = Some 7 /\
  encrypted_file (files_info (fst (cycle "A" overwrite_world))) !! "out.bin" = Some 9.
Proof. split; reflexivity. Qed.

(** A full disk: "a.txt" holds 8 KiB and no byte is free. *)
Definition full_disk_world : @World DiskFS :=
  mkWorld FileData.new (mkDiskFS (<["a.txt" := replicate BufWriter.DEFAULT_BUF_SIZE 1]> ∅) 0)
          ["a.txt"; "5"; "out.bin"]%string.

(** The world after the cycle on [full_disk_world]: "out.bin" was created
    empty and registered with key 5, and the write of 8 KiB failed. *)
Definition full_disk_after : @World DiskFS :=
  mkWorld (add_encrypted_file FileData.new "out.bin" 5)
          (mkDiskFS (<["out.bin" := []]>
                      (<["a.txt" := replicate BufWriter.DEFAULT_BUF_SIZE 1]> ∅)) 0) [].

(** Proved by the lemmas of the write path rather than by evaluation, so
    that the kernel never unfolds the 8 KiB list. *)
Lemma full_disk_cycle : cycle "A" full_disk_world = (full_disk_after, WriteError StorageFull).
Proof.
  set (data := replicate BufWriter.DEFAULT_BUF_SIZE 1).
  assert (Hl : length (process_file_data data 5) = BufWriter.DEFAULT_BUF_SIZE)
    by (unfold_cipher; rewrite length_xor_all; apply length_replicate).
  apply (cycle_write_path "A" full_disk_world "a.txt" ["5"; "out.bin"]%string "5"
           ["out.bin"%string] "out.bin" [] 5 data
           (mkDiskFS (<["out.bin" := []]> (<["a.txt" := data]> ∅)) 0) _ (Err StorageFull));
    [reflexivity .. | discriminate | reflexivity | reflexivity | reflexivity | reflexivity |].
  rewrite BufWriter.write_output_long by lia. cbn [fs_write_all DiskFS_FileSystem].
  unfold disk_write_all. rewrite decide_False; [done |].
  rewrite Hl. pose proof BufWriter.DEFAULT_BUF_SIZE_pos. cbn [disk_free]. lia.
Qed.

Lemma cycle_write_error_registers_witness :
  files_info full_disk_after = add_encrypted_file (files_info full_disk_world) "out.bin" 5.
Proof.
  apply (cycle_write_error_registers "A" full_disk_world full_disk_after StorageFull "a.txt"
           ["5"; "out.bin"]%string "5" ["out.bin"%string] "out.bin" 5);
    [apply full_disk_cycle | reflexivity ..].
Defined.

Lemma cycle_eof_spins_witness :
  cycle "A" (mkWorld FileData.new (∅ : MemFS) []) =
  (mkWorld FileData.new ∅ [], CantOpen "" NotFound).
Proof. by apply cycle_eof_spins. Defined.

(** A world reached by the loop: the operator typed three lines and the
    first cycle encrypted "a.txt" into "b.bin". *)
Definition start_world : @World MemFS :=
  mkWorld FileData.new (<["a.txt" := [72; 105]]> ∅) ["a.txt"; "42"; "b.bin"]%string.

Definition after_one_cycle : @World MemFS := fst (cycle "A" start_world).

Lemma after_one_cycle_reachable : reachable "A" after_one_cycle.
Proof.
  exists ∅, []. eapply rtc_l; [apply (step_env _ _ (<["a.txt" := [72; 105]]> ∅)
                                   ["a.txt"; "42"; "b.bin"]%string) |].
  eapply rtc_l; [apply step_cycle | apply rtc_refl].
Qed.

Lemma reachable_guard_inv_witness :
  reachable "A" after_one_cycle /\ guard_inv (files_info after_one_cycle).
Proof.
  split; [apply after_one_cycle_reachable |].
  apply (reachable_guard_inv "A"). apply after_one_cycle_reachable.
Defined.

Lemma access_denied_persists_witness :
  access_denied (files_info (fst (cycle "A" banned_world))) "out.bin" "A" = true.
Proof.
  apply (access_denied_persists "A" banned_world); [| reflexivity].
  eapply rtc_l; [apply step_cycle | apply rtc_refl].
Defined.

Lemma cycle_processed_witness :
  exists f stdin1 key_line stdin2 o key data fs1,
    get_input (stdin start_world) = (f, stdin1) /\
    get_input stdin1 = (key_line, stdin2) /\ get_input stdin2 = (o, stdin after_one_cycle) /\
    read_key key_line = Ok key /\ key <> 0 /\
    access_denied (files_info start_world) f "A" = false /\
    key_mismatch (files_info start_world) f key = false /\
    fs_read_to_end (fs start_world) f = Ok data /\ fs_create (fs start_world) o = Ok fs1 /\
    BufWriter.write_output fs1 o (process_file_data data key) = (fs after_one_cycle, Ok tt) /\
    files_info after_one_cycle =
      (if contains_key (encrypted_file (files_info start_world)) f
       then files_info start_world else add_encrypted_file (files_info start_world) o key).
Proof. apply (cycle_processed "A" start_world after_one_cycle). reflexivity. Defined.

Lemma cycle_write_error_long_witness :
  exists f stdin1 data,
    get_input (stdin full_disk_world) = (f, stdin1) /\
    fs_read_to_end (fs full_disk_world) f = Ok data /\
    (BufWriter.DEFAULT_BUF_SIZE <= length data)%nat.
Proof.
  apply (cycle_write_error_long "A" full_disk_world full_disk_after StorageFull).
  apply full_disk_cycle.
Defined.

(** The same full disk with a two-byte input. *)
Definition short_full_disk_world : @World DiskFS :=
  mkWorld FileData.new (mkDiskFS (<["a.txt" := [1; 2]]> ∅) 0)
          ["a.txt"; "5"; "out.bin"]%string.

Lemma cycle_short_write_failure_hidden_witness :
  cycle "A" short_full_disk_world =
    (mkWorld (add_encrypted_file FileData.new "out.bin" 5)
             (mkDiskFS (<["out.bin" := []]> (<["a.txt" := [1; 2]]> ∅)) 0) [], Processed).
Proof.
  apply (cycle_short_write_failure_hidden "A" short_full_disk_world "a.txt"
           ["5"; "out.bin"]%string "5" ["out.bin"%string] "out.bin" [] 5 [1; 2]
           (mkDiskFS (<["out.bin" := []]> (<["a.txt" := [1; 2]]> ∅)) 0) StorageFull);
    try reflexivity; try discriminate.
  vm_compute. lia.
Defined.

(** Scenario B on "out.bin", registered with key 7, tried with key 8. *)
Lemma three_wrong_keys_then_denied_witness :
  run_cycles 4 "A"
    (mkWorld (add_encrypted_file FileData.new "out.bin" 7) (<["out.bin" := [1]]> ∅ : MemFS)
       ["out.bin"; "8"; "out.bin"; "8"; "out.bin"; "8"; "out.bin"; "8"]%string) =
  (mkWorld (FileData.fail_n 3 (add_encrypted_file FileData.new "out.bin" 7) (trim "out.bin") "A")
     (<["out.bin" := [1]]> ∅) ["8"%string],
   [IncorrectKey; IncorrectKey; IncorrectKey; AccessDenied]).
Proof.
  apply (three_wrong_keys_then_denied "A" _ _ "out.bin" "8" [] 7 8);
    try reflexivity; try lia.
  simpl. set_solver.
Defined.

End Session.
