(* ===== verification/GuardSpec.v ===== *)
(** * GuardSpec: the abstract access guard and the refinement of [FileData]

    What the guard promises, stated without the three maps: a registry
    from names to keys, and for each pair (name, address) a small machine
    [Fresh 0 -> Fresh 1 -> Fresh 2 -> Banned] that advances on a failed
    attempt for a registered name and is never left once [Banned].  A
    step of the abstract guard does nothing, records one failure of the
    loop's address, or sets the key of a name.  [abs] reads this state
    off a [FileData]; the theorems show that, on the guards satisfying
    [Session.guard_inv], every change a cycle makes (lines 82-148 of
    src/src/main.rs) is a step of the abstract guard, and so that every run
    of the loop is a run of the abstract machine. *)

From S2P Require Import Prelude FileData FileSystem Session.
Import FileData FileSystem Session.

Module GuardSpec.

Inductive pair_state := Fresh (n : nat) | Banned.

#[export] Instance pair_state_eq_dec : EqDecision pair_state.
Proof. solve_decision. Defined.

(** One more failed attempt: the third one bans. *)
Definition bump (p : pair_state) : pair_state :=
  match p with
  | Fresh n => if decide (n < 2)%nat then Fresh (S n) else Banned
  | Banned => Banned
  end.

Record AGuard := mkAGuard {
  a_keys : gmap string Z;
  a_pair : string -> string -> pair_state
}.

(** The abstract refusal: a registered name and a banned pair. *)
Definition a_denied (s : AGuard) (f a : string) : Prop :=
  is_Some (a_keys s !! f) /\ a_pair s f a = Banned.

Inductive a_step (ip : string) : AGuard -> AGuard -> Prop :=
| a_skip s s' :
    a_keys s' = a_keys s -> (forall f a, a_pair s' f a = a_pair s f a) ->
    a_step ip s s'
| a_fail s s' f :
    is_Some (a_keys s !! f) -> a_pair s f ip <> Banned ->
    a_keys s' = a_keys s -> a_pair s' f ip = bump (a_pair s f ip) ->
    (forall f' a, (f', a) <> (f, ip) -> a_pair s' f' a = a_pair s f' a) ->
    a_step ip s s'
| a_register s s' o k :
    1 <= k <= 255 -> a_keys s' = <[o := k]> (a_keys s) ->
    (forall f a, a_pair s' f a = a_pair s f a) ->
    a_step ip s s'.

(** The abstraction of a [FileData]. *)
Definition abs (g : FileData) : AGuard :=
  mkAGuard (encrypted_file g)
           (fun f a => if decide (a ∈ bans_of g f) then Banned
                       else Fresh (Z.to_nat (attempts_of g f a))).

(** ** Properties of the abstract machine *)

(** [Banned] is terminal. *)
Lemma a_step_banned ip s s' f a :
  a_step ip s s' -> a_pair s f a = Banned -> a_pair s' f a = Banned.
Proof.
  intros [s0 s0' _ Hp | s0 s0' f0 _ Hnb _ Hbump Hother | s0 s0' o k _ _ Hp] Hb.
  - by rewrite Hp.
  - destruct (decide ((f, a) = (f0, ip))) as [Heq | Hne]; [simplify_eq; congruence |].
    by rewrite Hother.
  - by rewrite Hp.
Qed.

(** ** The refinement *)

Lemma abs_change g f ip :
  guard_inv g -> is_Some (encrypted_file g !! f) -> access_denied g f ip = false ->
  a_step ip (abs g) (abs (change_ip_attempts g f ip)).
Proof.
  intros Hinv Hreg Hden.
  pose proof (attempts_below_3 g f ip Hinv Hreg Hden) as Hc.
  assert (ip ∉ bans_of g f) as Hnot.
  { intros Hin. assert (access_denied g f ip = true) by (by apply access_denied_spec).
    congruence. }
  apply (a_fail ip _ _ f); cbn [abs a_keys a_pair].
  - done.
  - by rewrite decide_False.
  - by rewrite change_ip_attempts_encrypted.
  - set (g' := change_ip_attempts g f ip).
    assert (attempts_of g' f ip = attempts_of g f ip + 1) as Ha.
    { unfold g'. rewrite attempts_of_change, decide_True by done.
      apply u8_wrap_succ_small. lia. }
    assert (ip ∈ bans_of g' f <-> attempts_of g f ip = 2) as Hb.
    { unfold g'. rewrite bans_of_change.
      rewrite u8_wrap_succ_small by lia.
      case_decide as Hc3; [split; [lia | set_solver] |].
      split; [done | intros; exfalso; apply Hc3; split; [lia | done]]. }
    rewrite (decide_False (P := ip ∈ bans_of g f)), Ha by done. unfold bump.
    case_decide as Hin; case_decide as Hlt; rewrite ?Hb in Hin; try done; try lia.
    f_equal. lia.
  - intros f' a Hne.
    assert ([f; ip] <> [f'; a]) as Hne' by (intros [= -> ->]; congruence).
    rewrite attempts_of_change, (decide_False (P := [f; ip] = [f'; a])) by done.
    rewrite bans_of_change.
    destruct (decide (u8_wrap (attempts_of g f ip + 1) = 3 /\ f = f')) as [[_ <-] | _];
      [| done].
    assert (a <> ip) by congruence.
    destruct (decide (a ∈ bans_of g f ++ [ip])); destruct (decide (a ∈ bans_of g f));
      try done; exfalso; set_solver.
Qed.

Lemma abs_register ip g o k :
  1 <= k <= 255 -> a_step ip (abs g) (abs (add_encrypted_file g o k)).
Proof. intros Hk. by apply (a_register _ _ _ o k). Qed.

Lemma abs_effect ip g g' :
  guard_effect ip g g' -> guard_inv g -> a_step ip (abs g) (abs g').
Proof.
  intros [| f key Hden Hmis | f o key _ Hkey Hnz] Hinv.
  - by apply a_skip.
  - apply abs_change; [done | | done].
    apply key_mismatch_spec in Hmis. destruct Hmis as (k & Hk & _). by eexists.
  - apply abs_register. unfold is_u8 in Hkey. lia.
Qed.

(** The abstract state of the empty [FileData]: no key, every pair fresh. *)
Lemma abs_new f a : a_keys (abs FileData.new) = ∅ /\ a_pair (abs FileData.new) f a = Fresh 0.
Proof. split; [done |]. simpl. by rewrite decide_False by set_solver. Qed.

Section Refinement.
Context {FS : Type} `{FileSystem FS}.

(** C17: refinement of the loop to the abstract guard: along every run of
    the loop from a guard satisfying the invariant, the abstraction of the
    guard follows a run of the abstract machine, one abstract step per
    loop step. *)
Theorem loop_refines_abstract_guard ip w w' :
  rtc (step ip) w w' -> guard_inv (files_info w) ->
  rtc (a_step ip) (abs (files_info w)) (abs (files_info w')).
Proof.
  induction 1 as [w | w0 w1 w2 Hstep _ IH]; intros Hinv; [apply rtc_refl |].
  pose proof (step_guard_effect ip w0 w1 Hstep) as Heff.
  eapply rtc_l; [by eapply abs_effect | apply IH].
  by eapply guard_inv_effect.
Qed.

End Refinement.

Lemma loop_refines_abstract_guard_witness :
  rtc (a_step "A") (abs (files_info start_world)) (abs (files_info after_one_cycle)).
Proof.
  apply (@loop_refines_abstract_guard MemFS _ "A" start_world after_one_cycle).
  - eapply rtc_l; [apply step_cycle | apply rtc_refl].
  - apply guard_inv_new.
Defined.

End GuardSpec.
